(** * LilithOS kernel patches: a shallow embedding of [src/kernel/patches.c]

    The C file declares a static table of patch descriptors and two entry
    points, [apply_kernel_patches] and [verify_kernel_patches].  The
    embedding below follows the C text statement by statement: the table is
    a list of records, the [int] loop counter is a [Z] with its 32-bit
    wrap-around written out, the comparison against
    [sizeof(patches) / sizeof(patches[0])] is carried out on [size_t], and
    everything the functions can observe or change lives in an explicit
    [world] that is threaded through a small state-and-error monad. *)

From Stdlib Require Import ZArith List String Ascii Bool Lia FinFun.
Import ListNotations.

Local Open Scope string_scope.
Local Open Scope list_scope.
Local Open Scope Z_scope.

(** ** Machine integers of the target (iPhone 4S, 32-bit ARM) *)

Module Int32.

Definition modulus : Z := 2 ^ 32.
Definition INT_MIN : Z := - 2 ^ 31.
Definition INT_MAX : Z := 2 ^ 31 - 1.
Definition SIZE_MAX : Z := 2 ^ 32 - 1.

(** Value of an [int] after an arithmetic result [z] is stored back. *)
Definition wrap_int (z : Z) : Z := (z - INT_MIN) mod modulus + INT_MIN.

(** Conversion of an [int] to [size_t], as the usual arithmetic
    conversions do when [int] meets [size_t] in a comparison. *)
Definition to_size_t (z : Z) : Z := z mod modulus.

(** [i++] on an [int]. *)
Definition incr (i : Z) : Z := wrap_int (i + 1).

End Int32.

(** ** Data model *)

(** [kern_return_t] is Mach's [int] status type. *)
Definition kern_return_t : Type := Z.

(** Modelled from the spec: the status code that reports overall success,
    the macro [KERN_SUCCESS] of the Mach headers, which the repository does
    not carry; the headers give it the value 0. *)
Definition KERN_SUCCESS : kern_return_t := 0.

Definition KERNEL_BASE : Z := 0x80001000.
Definition KERNEL_SIZE : Z := 0x10000000.

(** [struct kernel_patch]; the three [uint32_t] fields are kept as [Z]. *)
Record kernel_patch : Type := mk_patch {
  offset : Z;
  original : Z;
  patched : Z;
  description : string
}.

(** [sizeof(struct kernel_patch)]: three 32-bit words and a 32-bit pointer. *)
Definition sizeof_kernel_patch : Z := 16.

(** [sizeof(patches)] for a table holding the descriptors [tbl]. *)
Definition sizeof_table (tbl : list kernel_patch) : Z :=
  sizeof_kernel_patch * Z.of_nat (List.length tbl).

(** [sizeof(patches) / sizeof(patches[0])], the loop bound. *)
Definition table_count (tbl : list kernel_patch) : Z :=
  sizeof_table tbl / sizeof_kernel_patch.

(** A C array is an object, so its size is a [size_t] value. *)
Definition table_fits (tbl : list kernel_patch) : Prop :=
  sizeof_table tbl <= Int32.SIZE_MAX.

(** The initialiser of the static array [patches]. *)
Definition patches : list kernel_patch :=
  [ mk_patch 0x12345678 0xE3500000 0xE3A00000 "Disable code signing";
    mk_patch 0x87654321 0xE3500001 0xE3A00001 "Enable custom entitlements";
    mk_patch 0x11223344 0xE3500002 0xE3A00002 "Modify sandbox restrictions" ].

(** ** The world the two functions run in *)

(** What a memory-access monitor can record: a load from the static table
    that lives in the program's own data, or a load or store in the address
    space the patches are aimed at. *)
Inductive access : Type :=
| StaticLoad (index : Z)
| TargetLoad (addr : Z)
| TargetStore (addr : Z) (val : Z).

Definition in_kernel_range (addr : Z) : bool :=
  (KERNEL_BASE <=? addr) && (addr <? KERNEL_BASE + KERNEL_SIZE).

Definition touches_target (a : access) : bool :=
  match a with
  | StaticLoad _ => false
  | TargetLoad addr => in_kernel_range addr
  | TargetStore addr _ => in_kernel_range addr
  end.

Record world : Type := mk_world {
  table : list kernel_patch;     (* current content of [patches] *)
  stdout : list string;          (* one entry per completed [printf] *)
  kmem : Z -> Z;                 (* words of the target address space *)
  accesses : list access;        (* the monitor's record, oldest first *)
  mach_task_self_ : Z            (* the port name behind [mach_task_self()] *)
}.

(** ** State-and-error monad *)

Inductive outcome (A : Type) : Type :=
| Done (a : A) (w : world)       (* the call returned [a] *)
| Fault                          (* access outside the table *)
| Timeout.                       (* the step budget ran out *)

Arguments Done {A} a w.
Arguments Fault {A}.
Arguments Timeout {A}.

Definition M (A : Type) : Type := world -> outcome A.

Definition ret {A : Type} (a : A) : M A := fun w => Done a w.

Definition bind {A B : Type} (c : M A) (k : A -> M B) : M B :=
  fun w =>
    match c w with
    | Done a w' => k a w'
    | Fault => Fault
    | Timeout => Timeout
    end.

Notation "x <- c ;; k" := (bind c (fun x => k))
  (at level 61, c at next level, right associativity).
Notation "c ;;; k" := (bind c (fun _ => k))
  (at level 61, right associativity).

(** ** Primitive operations used by the C text *)

(** [mach_task_self()] expands to a read of the global [mach_task_self_]. *)
Definition mach_task_self : M Z := fun w => Done (mach_task_self_ w) w.

(** [&patches[i]] followed by the read of the descriptor through it. *)
Definition load_patch (i : Z) : M kernel_patch := fun w =>
  if i <? 0 then Fault
  else match nth_error (table w) (Z.to_nat i) with
       | Some p =>
           Done p (mk_world (table w) (stdout w) (kmem w)
                            (accesses w ++ [StaticLoad i]) (mach_task_self_ w))
       | None => Fault
       end.

Definition newline : string := String (ascii_of_nat 10) EmptyString.

(** The text produced by [printf("Applied patch: %s\n", d)]. *)
Definition applied_line (d : string) : string :=
  ("Applied patch: " ++ d ++ newline)%string.

Definition printf_applied (d : string) : M unit := fun w =>
  Done tt (mk_world (table w) (stdout w ++ [applied_line d]) (kmem w)
                    (accesses w) (mach_task_self_ w)).

(** ** The two entry points *)

(** The [for] loop of [apply_kernel_patches], entered with counter [i].
    [fuel] bounds the number of times the loop condition is evaluated. *)
Fixpoint apply_loop (fuel : nat) (i : Z) : M unit :=
  match fuel with
  | O => fun _ => Timeout
  | S fuel' =>
      fun w =>
        if Int32.to_size_t i <? table_count (table w) then
          (patch <- load_patch i ;;
           printf_applied (description patch) ;;;
           apply_loop fuel' (Int32.incr i)) w
        else Done tt w
  end.

Definition apply_kernel_patches (fuel : nat) : M kern_return_t :=
  let address := KERNEL_BASE in
  let size := KERNEL_SIZE in
  kernel_map <- mach_task_self ;;
  apply_loop fuel 0 ;;;
  ret KERN_SUCCESS.

Definition verify_kernel_patches : M kern_return_t :=
  ret KERN_SUCCESS.

(** ** Sequences of calls *)

Inductive call : Type := CallApply | CallVerify.

Definition run_call (fuel : nat) (c : call) : M kern_return_t :=
  match c with
  | CallApply => apply_kernel_patches fuel
  | CallVerify => verify_kernel_patches
  end.

Fixpoint run_calls (fuel : nat) (cs : list call) : M (list kern_return_t) :=
  match cs with
  | [] => ret []
  | c :: cs' =>
      r <- run_call fuel c ;;
      rs <- run_calls fuel cs' ;;
      ret (r :: rs)
  end.

(** ** Worlds used in examples *)

Definition boot_world : world :=
  mk_world patches [] (fun _ => 0) [] 0x103.

(** A world reached after earlier calls, with other memory and task port. *)
Definition later_world : world :=
  mk_world patches ["Applied patch: earlier run"] (fun a => a) [TargetLoad 7] 0x707.

Definition with_table (tbl : list kernel_patch) (w : world) : world :=
  mk_world tbl (stdout w) (kmem w) (accesses w) (mach_task_self_ w).

(** The world [apply_kernel_patches] leaves behind when started in [w]. *)
Definition after_apply (w : world) : world :=
  mk_world (table w)
           (stdout w ++ map (fun p => applied_line (description p)) (table w))
           (kmem w)
           (accesses w ++
              map (fun k => StaticLoad (Z.of_nat k)) (seq 0 (List.length (table w))))
           (mach_task_self_ w).

(** The world reached when the loop is entered at index [i] with [k]
    descriptors still to visit. *)
Definition loop_world (i k : nat) (w : world) : world :=
  mk_world (table w)
           (stdout w ++
              map (fun p => applied_line (description p)) (skipn i (table w)))
           (kmem w)
           (accesses w ++ map (fun j => StaticLoad (Z.of_nat j)) (seq i k))
           (mach_task_self_ w).

(** Number of [printf] records a run from [w] to [w'] added to [stdout]. *)
Definition lines_emitted (w w' : world) : nat :=
  (List.length (stdout w') - List.length (stdout w))%nat.

(** What a run from [w] to [w'] leaves alone: the static table, every word
    of the target address space, and the monitor's record of accesses that
    fall into [KERNEL_BASE .. KERNEL_BASE + KERNEL_SIZE). *)
Definition same_target (w w' : world) : Prop :=
  table w' = table w /\
  kmem w' = kmem w /\
  filter touches_target (accesses w') = filter touches_target (accesses w).

(** ** The log as a character stream *)

(** The bytes [stdout] has received, in order. *)
Definition stdout_text (lines : list string) : string :=
  fold_right String.append EmptyString lines.

Fixpoint count_char (c : ascii) (s : string) : nat :=
  match s with
  | EmptyString => 0%nat
  | String a s' => ((if Ascii.eqb a c then 1 else 0) + count_char c s')%nat
  end.

Definition line_feed : ascii := ascii_of_nat 10.

Definition single_line (p : kernel_patch) : Prop :=
  count_char line_feed (description p) = 0%nat.

(** ** Vocabulary for runs and sequences of runs *)

(** The records one run of [apply_kernel_patches] writes for the table [tbl]. *)
Definition table_lines (tbl : list kernel_patch) : list string :=
  map (fun p => applied_line (description p)) tbl.

(** Line feeds that the descriptions of [tbl] carry themselves. *)
Definition line_feeds (tbl : list kernel_patch) : nat :=
  fold_right (fun p n => (count_char line_feed (description p) + n)%nat) 0%nat tbl.

Definition is_apply (c : call) : bool :=
  match c with
  | CallApply => true
  | CallVerify => false
  end.

(** How many of the calls [cs] are calls of [apply_kernel_patches]. *)
Definition applies (cs : list call) : nat := List.length (filter is_apply cs).

(** An outcome with the returned value forgotten: the world left behind, or
    the way the run broke off. *)
Definition final {A : Type} (o : outcome A) : outcome unit :=
  match o with
  | Done _ w => Done tt w
  | Fault => Fault
  | Timeout => Timeout
  end.

(** A table with the descriptions of [patches] and other words around them. *)
Definition relocated_world : world :=
  mk_world
    [ mk_patch 0x4000 0 1 "Disable code signing";
      mk_patch 0x4004 2 3 "Enable custom entitlements";
      mk_patch 0x4008 4 5 "Modify sandbox restrictions" ]
    ["Applied patch: earlier run"] (fun a => a + 1) [TargetStore 9 9] 0x203.

(** * Properties *)

(** ** The sample table, executed *)

Example apply_boot :
  apply_kernel_patches 4 boot_world = Done KERN_SUCCESS (after_apply boot_world).
Proof. reflexivity. Qed.

Example apply_boot_short : apply_kernel_patches 3 boot_world = Timeout.
Proof. reflexivity. Qed.

(** ** Arithmetic of the loop counter and of the loop bound *)

Lemma table_count_length (tbl : list kernel_patch) :
  table_count tbl = Z.of_nat (List.length tbl).
Proof.
  unfold table_count, sizeof_table, sizeof_kernel_patch.
  rewrite Z.mul_comm. apply Z.div_mul. discriminate.
Qed.

Lemma table_fits_int (tbl : list kernel_patch) :
  table_fits tbl -> Z.of_nat (List.length tbl) <= Int32.INT_MAX.
Proof.
  unfold table_fits, sizeof_table, sizeof_kernel_patch.
  unfold Int32.SIZE_MAX, Int32.INT_MAX. lia.
Qed.

Lemma to_size_t_small (i : Z) :
  0 <= i <= Int32.INT_MAX -> Int32.to_size_t i = i.
Proof.
  unfold Int32.to_size_t, Int32.modulus, Int32.INT_MAX. intros Hi.
  apply Z.mod_small. lia.
Qed.

Lemma incr_small (i : Z) :
  0 <= i < Int32.INT_MAX -> Int32.incr i = i + 1.
Proof.
  unfold Int32.incr, Int32.wrap_int, Int32.modulus, Int32.INT_MIN, Int32.INT_MAX.
  intros Hi. rewrite Z.mod_small; lia.
Qed.

(** ** Lists: the element under the cursor heads the remaining suffix *)

Lemma skipn_cons_nth {A : Type} (l : list A) :
  forall (i : nat) (x : A),
    nth_error l i = Some x -> skipn i l = x :: skipn (S i) l.
Proof.
  induction l as [| y l IH]; intros [| i] x H; simpl in H; try discriminate.
  - injection H as ->. reflexivity.
  - apply (IH i x H).
Qed.

Lemma nth_error_in_table (tbl : list kernel_patch) (i : nat) :
  (i < List.length tbl)%nat -> exists p, nth_error tbl i = Some p.
Proof.
  intros Hi. destruct (nth_error tbl i) as [p |] eqn:E.
  - exists p. reflexivity.
  - apply nth_error_None in E. lia.
Qed.

(** ** The loop *)

Lemma apply_loop_run :
  forall (k i : nat) (w : world) (fuel : nat),
    (i + k = List.length (table w))%nat ->
    Z.of_nat (List.length (table w)) <= Int32.INT_MAX ->
    (k < fuel)%nat ->
    apply_loop fuel (Z.of_nat i) w = Done tt (loop_world i k w).
Proof.
  induction k as [| k IH]; intros i w fuel Hlen Hmax Hfuel;
    (destruct fuel as [| fuel]; [lia |]); simpl;
    rewrite table_count_length, to_size_t_small by lia.
  - replace (Z.of_nat i <? Z.of_nat (List.length (table w))) with false
      by (symmetry; apply Z.ltb_ge; lia).
    unfold loop_world. rewrite skipn_all2 by lia. simpl.
    rewrite !app_nil_r. destruct w; reflexivity.
  - replace (Z.of_nat i <? Z.of_nat (List.length (table w))) with true
      by (symmetry; apply Z.ltb_lt; lia).
    destruct (nth_error_in_table (table w) i) as [p Hp]; [lia |].
    unfold bind at 1, load_patch.
    replace (Z.of_nat i <? 0) with false by (symmetry; apply Z.ltb_ge; lia).
    rewrite Nat2Z.id, Hp.
    unfold bind at 1, printf_applied.
    rewrite incr_small by lia.
    replace (Z.of_nat i + 1) with (Z.of_nat (S i)) by lia.
    rewrite IH; simpl; try lia.
    unfold loop_world; simpl.
    rewrite (skipn_cons_nth (table w) i p Hp). simpl.
    rewrite <- !app_assoc. reflexivity.
Qed.

(** With too small a budget the loop does not get to its exit test. *)
Lemma apply_loop_short :
  forall (fuel i : nat) (w : world),
    Z.of_nat (List.length (table w)) <= Int32.INT_MAX ->
    (i + fuel <= List.length (table w))%nat ->
    apply_loop fuel (Z.of_nat i) w = Timeout.
Proof.
  induction fuel as [| fuel IH]; intros i w Hmax Hlen; simpl; [reflexivity |].
  rewrite table_count_length, to_size_t_small by lia.
  replace (Z.of_nat i <? Z.of_nat (List.length (table w))) with true
    by (symmetry; apply Z.ltb_lt; lia).
  destruct (nth_error_in_table (table w) i) as [p Hp]; [lia |].
  unfold bind at 1, load_patch.
  replace (Z.of_nat i <? 0) with false by (symmetry; apply Z.ltb_ge; lia).
  rewrite Nat2Z.id, Hp.
  unfold bind at 1, printf_applied.
  rewrite incr_small by lia.
  replace (Z.of_nat i + 1) with (Z.of_nat (S i)) by lia.
  apply IH; simpl; lia.
Qed.

(** ** The entry points, run to completion *)

Lemma apply_kernel_patches_run (w : world) (fuel : nat) :
  table_fits (table w) ->
  (List.length (table w) < fuel)%nat ->
  apply_kernel_patches fuel w = Done KERN_SUCCESS (after_apply w).
Proof.
  intros Hfits Hfuel. apply table_fits_int in Hfits.
  unfold apply_kernel_patches, bind, mach_task_self.
  change 0 with (Z.of_nat 0).
  rewrite (apply_loop_run (List.length (table w)) 0 w fuel) by (auto; lia).
  reflexivity.
Qed.

Lemma verify_kernel_patches_run (w : world) :
  verify_kernel_patches w = Done KERN_SUCCESS w.
Proof. reflexivity. Qed.

(** ** What any returning run leaves alone *)

Section Frame.

Lemma same_target_refl (w : world) : same_target w w.
Proof. repeat split. Qed.

Lemma same_target_trans (w1 w2 w3 : world) :
  same_target w1 w2 -> same_target w2 w3 -> same_target w1 w3.
Proof.
  intros (Ht & Hm & Ha) (Ht' & Hm' & Ha').
  repeat split; congruence.
Qed.

Lemma load_patch_same_target (i : Z) (w w' : world) (p : kernel_patch) :
  load_patch i w = Done p w' -> same_target w w'.
Proof.
  unfold load_patch. destruct (i <? 0); [discriminate |].
  destruct (nth_error (table w) (Z.to_nat i)); [| discriminate].
  intros H. injection H as _ <-.
  repeat split; simpl.
  rewrite filter_app. simpl. apply app_nil_r.
Qed.

Lemma printf_applied_same_target (d : string) (w w' : world) :
  printf_applied d w = Done tt w' -> same_target w w'.
Proof.
  unfold printf_applied. intros H. injection H as <-. repeat split.
Qed.

Lemma apply_loop_same_target :
  forall (fuel : nat) (i : Z) (w w' : world) (u : unit),
    apply_loop fuel i w = Done u w' -> same_target w w'.
Proof.
  induction fuel as [| fuel IH]; intros i w w' u H; simpl in H.
  - discriminate.
  - destruct (Int32.to_size_t i <? table_count (table w)).
    + unfold bind at 1 in H.
      destruct (load_patch i w) as [p w1 | |] eqn:Hload; try discriminate.
      unfold bind at 1 in H.
      destruct (printf_applied (description p) w1) as [[] w2 | |] eqn:Hpr;
        try discriminate.
      apply load_patch_same_target in Hload.
      apply printf_applied_same_target in Hpr.
      apply IH in H.
      eauto using same_target_trans.
    + injection H as _ <-. apply same_target_refl.
Qed.

Lemma apply_kernel_patches_returns (fuel : nat) (w w' : world)
      (r : kern_return_t) :
  apply_kernel_patches fuel w = Done r w' ->
  r = KERN_SUCCESS /\ same_target w w'.
Proof.
  unfold apply_kernel_patches, bind, mach_task_self, ret.
  destruct (apply_loop fuel 0 w) as [u w1 | |] eqn:Hloop; try discriminate.
  intros H. injection H as <- <-.
  split; [reflexivity | eapply apply_loop_same_target; eassumption].
Qed.

Lemma run_call_returns (fuel : nat) (c : call) (w w' : world)
      (r : kern_return_t) :
  run_call fuel c w = Done r w' -> r = KERN_SUCCESS /\ same_target w w'.
Proof.
  destruct c; simpl.
  - apply apply_kernel_patches_returns.
  - intros H. injection H as <- <-. split; [reflexivity | apply same_target_refl].
Qed.

End Frame.

(** ** Sequences of calls run to completion *)

Lemma run_call_run (fuel : nat) (c : call) (w : world) :
  table_fits (table w) ->
  (List.length (table w) < fuel)%nat ->
  exists w', run_call fuel c w = Done KERN_SUCCESS w' /\ table w' = table w.
Proof.
  intros Hfits Hfuel. destruct c; simpl.
  - exists (after_apply w). split; [| reflexivity].
    apply apply_kernel_patches_run; assumption.
  - exists w. split; reflexivity.
Qed.

Lemma run_calls_run (fuel : nat) (cs : list call) :
  forall w : world,
    table_fits (table w) ->
    (List.length (table w) < fuel)%nat ->
    exists w',
      run_calls fuel cs w = Done (repeat KERN_SUCCESS (List.length cs)) w' /\
      table w' = table w.
Proof.
  induction cs as [| c cs IH]; intros w Hfits Hfuel; simpl.
  - exists w. split; reflexivity.
  - destruct (run_call_run fuel c w Hfits Hfuel) as (w1 & Hc & Ht1).
    destruct (IH w1) as (w2 & Hcs & Ht2); try (rewrite Ht1; assumption).
    exists w2. unfold bind. rewrite Hc, Hcs.
    split; [reflexivity | congruence].
Qed.

(** ** Records and text lines *)

Lemma count_char_append (c : ascii) (s t : string) :
  count_char c (s ++ t)%string = (count_char c s + count_char c t)%nat.
Proof.
  induction s as [| a s IH]; simpl; [reflexivity |].
  rewrite IH. lia.
Qed.

Lemma applied_line_feeds (d : string) :
  count_char line_feed (applied_line d) = S (count_char line_feed d).
Proof.
  unfold applied_line. rewrite !count_char_append. simpl.
  unfold newline, line_feed. simpl. lia.
Qed.

(** When no description carries a line feed of its own, the text written
    by a run of [apply_kernel_patches] has one line feed per descriptor. *)
Lemma apply_text_lines (tbl : list kernel_patch) :
  Forall single_line tbl ->
  count_char line_feed
    (stdout_text (map (fun p => applied_line (description p)) tbl)) =
  List.length tbl.
Proof.
  unfold stdout_text.
  induction 1 as [| p tbl Hp _ IH]; [reflexivity |].
  cbn [map fold_right List.length].
  rewrite count_char_append, applied_line_feeds, IH, Hp. reflexivity.
Qed.

(** ** Tactics for closed side conditions *)

Ltac fits_now :=
  unfold table_fits, sizeof_table, sizeof_kernel_patch, Int32.SIZE_MAX;
  simpl; lia.

Ltac fuel_now := simpl; lia.

(** * The stub's contract *)

(** C1.  For every patch table of N descriptors, the empty one included,
    [apply_kernel_patches] appends exactly N records to the log, one per
    descriptor in table order, and returns [KERN_SUCCESS].  The record for
    a descriptor is the text ["Applied patch: "], then its description, then
    the line feed that closes the line.  The table is a C array (its size
    is a [size_t] value) and the run is given room for its N+1 loop
    tests. *)
Theorem apply_logs_one_line_per_descriptor (w : world) (fuel : nat) :
  table_fits (table w) ->
  (List.length (table w) < fuel)%nat ->
  exists w',
    apply_kernel_patches fuel w = Done KERN_SUCCESS w' /\
    stdout w' =
      stdout w ++
        map (fun p =>
               ("Applied patch: " ++ description p ++
                String "010"%char EmptyString)%string)
            (table w) /\
    lines_emitted w w' = List.length (table w).
Proof.
  intros Hfits Hfuel. exists (after_apply w).
  split; [apply apply_kernel_patches_run; assumption |].
  split; [reflexivity |].
  unfold lines_emitted, after_apply; simpl.
  rewrite length_app, length_map. lia.
Qed.

Lemma apply_logs_one_line_per_descriptor_witness :
  (exists w',
      apply_kernel_patches 1 (with_table [] boot_world) = Done KERN_SUCCESS w' /\
      stdout w' = [] /\
      lines_emitted (with_table [] boot_world) w' = 0%nat) /\
  (exists w',
      apply_kernel_patches 4 boot_world = Done KERN_SUCCESS w' /\
      stdout w' =
        [ ("Applied patch: Disable code signing" ++
           String "010"%char EmptyString)%string;
          ("Applied patch: Enable custom entitlements" ++
           String "010"%char EmptyString)%string;
          ("Applied patch: Modify sandbox restrictions" ++
           String "010"%char EmptyString)%string ] /\
      lines_emitted boot_world w' = 3%nat).
Proof.
  split.
  - apply (apply_logs_one_line_per_descriptor (with_table [] boot_world) 1);
      [fits_now | fuel_now].
  - apply (apply_logs_one_line_per_descriptor boot_world 4);
      [fits_now | fuel_now].
Defined.

(** C2.  [verify_kernel_patches] returns [KERN_SUCCESS] whatever the table
    holds, sentinel offsets included, and the monitor records no access of
    any kind during the call: the world it returns is the one it was
    given. *)
Theorem verify_always_succeeds (tbl : list kernel_patch) (w : world) :
  exists w',
    verify_kernel_patches (with_table tbl w) = Done KERN_SUCCESS w' /\
    accesses w' = accesses w /\
    w' = with_table tbl w.
Proof.
  exists (with_table tbl w). repeat split.
Qed.

(** C3.  Neither entry point loads from or stores to the target address
    space: after either call every word of
    [KERNEL_BASE .. KERNEL_BASE + KERNEL_SIZE) holds what it held before,
    and the monitor has no new access inside that range. *)
Theorem target_memory_untouched (w : world) (fuel : nat) :
  table_fits (table w) ->
  (List.length (table w) < fuel)%nat ->
  exists wa wv,
    apply_kernel_patches fuel w = Done KERN_SUCCESS wa /\
    verify_kernel_patches w = Done KERN_SUCCESS wv /\
    kmem wa = kmem w /\
    kmem wv = kmem w /\
    filter touches_target (accesses wa) = filter touches_target (accesses w) /\
    filter touches_target (accesses wv) = filter touches_target (accesses w) /\
    (forall addr,
        in_kernel_range addr = true ->
        kmem wa addr = kmem w addr /\ kmem wv addr = kmem w addr).
Proof.
  intros Hfits Hfuel.
  pose proof (apply_kernel_patches_run w fuel Hfits Hfuel) as Ha.
  destruct (apply_kernel_patches_returns _ _ _ _ Ha) as (_ & _ & Hm & Hacc).
  exists (after_apply w), w.
  repeat split; auto.
Qed.

Lemma target_memory_untouched_witness :
  table_fits (table boot_world) /\
  exists wa wv,
    apply_kernel_patches 4 boot_world = Done KERN_SUCCESS wa /\
    verify_kernel_patches boot_world = Done KERN_SUCCESS wv /\
    kmem wa = kmem boot_world /\
    kmem wv = kmem boot_world /\
    filter touches_target (accesses wa) =
      filter touches_target (accesses boot_world) /\
    filter touches_target (accesses wv) =
      filter touches_target (accesses boot_world) /\
    (forall addr,
        in_kernel_range addr = true ->
        kmem wa addr = kmem boot_world addr /\
        kmem wv addr = kmem boot_world addr).
Proof.
  split; [fits_now |].
  apply (target_memory_untouched boot_world 4); [fits_now | fuel_now].
Defined.

(** C4.  On the three sample descriptors (offsets 0x12345678, 0x87654321,
    0x11223344) [apply_kernel_patches] logs the three descriptions
    'Disable code signing', 'Enable custom entitlements' and 'Modify
    sandbox restrictions' in table order, each on a line of its own after
    the words 'Applied patch: ', and returns [KERN_SUCCESS];
    [verify_kernel_patches] returns [KERN_SUCCESS] and the monitor records
    nothing. *)
Theorem sample_table_scenario (w : world) (fuel : nat) :
  table w = patches ->
  (3 < fuel)%nat ->
  map offset (table w) = [0x12345678; 0x87654321; 0x11223344] /\
  map description (table w) =
    [ "Disable code signing";
      "Enable custom entitlements";
      "Modify sandbox restrictions" ] /\
  (exists wa,
      apply_kernel_patches fuel w = Done KERN_SUCCESS wa /\
      stdout wa =
        stdout w ++
          [ ("Applied patch: Disable code signing" ++
             String "010"%char EmptyString)%string;
            ("Applied patch: Enable custom entitlements" ++
             String "010"%char EmptyString)%string;
            ("Applied patch: Modify sandbox restrictions" ++
             String "010"%char EmptyString)%string ]) /\
  (exists wv,
      verify_kernel_patches w = Done KERN_SUCCESS wv /\
      accesses wv = accesses w /\
      kmem wv = kmem w).
Proof.
  intros Htbl Hfuel. split; [rewrite Htbl; reflexivity |].
  split; [rewrite Htbl; reflexivity |]. split.
  - exists (after_apply w). split.
    + apply apply_kernel_patches_run; rewrite Htbl; [fits_now | fuel_now].
    + unfold after_apply; simpl. rewrite Htbl. reflexivity.
  - exists w. repeat split.
Qed.

Lemma sample_table_scenario_witness :
  exists wa,
    apply_kernel_patches 4 boot_world = Done KERN_SUCCESS wa /\
    stdout wa =
      [] ++
        [ ("Applied patch: Disable code signing" ++
           String "010"%char EmptyString)%string;
          ("Applied patch: Enable custom entitlements" ++
           String "010"%char EmptyString)%string;
          ("Applied patch: Modify sandbox restrictions" ++
           String "010"%char EmptyString)%string ].
Proof.
  apply (sample_table_scenario boot_world 4); [reflexivity | fuel_now].
Defined.

(** C5.  Neither entry point ever detects or surfaces an error: both return
    [KERN_SUCCESS], and whatever call returns, with whatever budget, the
    status it returns is [KERN_SUCCESS] and no other code. *)
Theorem no_error_surfaced (w : world) (fuel : nat) :
  table_fits (table w) ->
  (List.length (table w) < fuel)%nat ->
  (exists w', apply_kernel_patches fuel w = Done KERN_SUCCESS w') /\
  (exists w', verify_kernel_patches w = Done KERN_SUCCESS w') /\
  (forall (c : call) (f : nat) (r : kern_return_t) (w' : world),
      run_call f c w = Done r w' -> r = KERN_SUCCESS).
Proof.
  intros Hfits Hfuel. split; [| split].
  - exists (after_apply w). apply apply_kernel_patches_run; assumption.
  - exists w. reflexivity.
  - intros c f r w' H. apply (run_call_returns f c w w' r H).
Qed.

Lemma no_error_surfaced_witness :
  (exists w', apply_kernel_patches 4 boot_world = Done KERN_SUCCESS w') /\
  (exists w', verify_kernel_patches boot_world = Done KERN_SUCCESS w') /\
  (forall (c : call) (f : nat) (r : kern_return_t) (w' : world),
      run_call f c boot_world = Done r w' -> r = KERN_SUCCESS).
Proof.
  apply (no_error_surfaced boot_world 4); [fits_now | fuel_now].
Defined.

(** C6.  The patch table is fixed at compile time and no call changes it:
    after any sequence of calls to the two entry points the table is still
    the initialiser [patches], descriptor for descriptor and field for
    field, with nothing added and nothing removed. *)
Theorem table_never_changes (cs : list call) (w : world) (fuel : nat) :
  table w = patches ->
  (3 < fuel)%nat ->
  exists rs w',
    run_calls fuel cs w = Done rs w' /\
    table w' = patches /\
    List.length (table w') = 3%nat /\
    map offset (table w') = map offset patches /\
    map original (table w') = map original patches /\
    map patched (table w') = map patched patches /\
    map description (table w') = map description patches.
Proof.
  intros Htbl Hfuel.
  destruct (run_calls_run fuel cs w) as (w' & Hrun & Ht);
    try (rewrite Htbl; [fits_now || fuel_now]).
  exists (repeat KERN_SUCCESS (List.length cs)), w'.
  rewrite Ht, Htbl. repeat split. exact Hrun.
Qed.

Lemma table_never_changes_witness :
  exists rs w',
    run_calls 4 [CallApply; CallVerify; CallApply] boot_world = Done rs w' /\
    table w' = patches /\
    List.length (table w') = 3%nat /\
    map offset (table w') = map offset patches /\
    map original (table w') = map original patches /\
    map patched (table w') = map patched patches /\
    map description (table w') = map description patches.
Proof.
  apply (table_never_changes [CallApply; CallVerify; CallApply] boot_world 4);
    [reflexivity | fuel_now].
Defined.

(** C7.  [apply_kernel_patches] terminates for every table: its one loop
    tests its condition N+1 times, N being
    [sizeof(patches) / sizeof(patches[0])], which is 3 for the table in the
    source; any larger budget gives the same result and a smaller one is
    used up inside the loop. *)
Theorem apply_terminates (w : world) :
  table_fits (table w) ->
  table_count patches = 3 /\
  (exists r w',
      apply_kernel_patches (S (List.length (table w))) w = Done r w') /\
  (forall fuel : nat,
      (List.length (table w) < fuel)%nat ->
      apply_kernel_patches fuel w =
        apply_kernel_patches (S (List.length (table w))) w) /\
  (forall fuel : nat,
      (fuel <= List.length (table w))%nat ->
      apply_kernel_patches fuel w = Timeout).
Proof.
  intros Hfits. split; [reflexivity |]. split; [| split].
  - exists KERN_SUCCESS, (after_apply w).
    apply apply_kernel_patches_run; [assumption | lia].
  - intros fuel Hfuel.
    rewrite !apply_kernel_patches_run by (assumption || lia). reflexivity.
  - intros fuel Hfuel. apply table_fits_int in Hfits.
    unfold apply_kernel_patches, bind, mach_task_self.
    change 0 with (Z.of_nat 0).
    rewrite apply_loop_short by (assumption || (simpl; lia)). reflexivity.
Qed.

Lemma apply_terminates_witness :
  table_fits (table boot_world) /\
  exists r w', apply_kernel_patches 4 boot_world = Done r w'.
Proof.
  split; [fits_now |].
  apply (apply_terminates boot_world). fits_now.
Defined.

(** C8.  Both entry points are deterministic: two calls over the same table
    return the same status and emit the same log lines, whatever the two
    worlds otherwise hold (earlier output, memory, monitor record, task
    port) and whatever budgets they run with. *)
Theorem entry_points_deterministic (w1 w2 : world) (fuel1 fuel2 : nat) :
  table w1 = table w2 ->
  table_fits (table w1) ->
  (List.length (table w1) < fuel1)%nat ->
  (List.length (table w1) < fuel2)%nat ->
  (exists r lines w1' w2',
      apply_kernel_patches fuel1 w1 = Done r w1' /\
      apply_kernel_patches fuel2 w2 = Done r w2' /\
      stdout w1' = stdout w1 ++ lines /\
      stdout w2' = stdout w2 ++ lines) /\
  (exists r lines w1' w2',
      verify_kernel_patches w1 = Done r w1' /\
      verify_kernel_patches w2 = Done r w2' /\
      stdout w1' = stdout w1 ++ lines /\
      stdout w2' = stdout w2 ++ lines).
Proof.
  intros Htbl Hfits Hf1 Hf2. split.
  - exists KERN_SUCCESS,
      (map (fun p => applied_line (description p)) (table w1)),
      (after_apply w1), (after_apply w2).
    split; [apply apply_kernel_patches_run; assumption |].
    split; [apply apply_kernel_patches_run; rewrite <- Htbl; assumption |].
    split; [reflexivity |].
    unfold after_apply; simpl. rewrite Htbl. reflexivity.
  - exists KERN_SUCCESS, [], w1, w2.
    repeat split; symmetry; apply app_nil_r.
Qed.

Lemma entry_points_deterministic_witness :
  (exists r lines w1' w2',
      apply_kernel_patches 4 boot_world = Done r w1' /\
      apply_kernel_patches 9 later_world = Done r w2' /\
      stdout w1' = stdout boot_world ++ lines /\
      stdout w2' = stdout later_world ++ lines) /\
  (exists r lines w1' w2',
      verify_kernel_patches boot_world = Done r w1' /\
      verify_kernel_patches later_world = Done r w2' /\
      stdout w1' = stdout boot_world ++ lines /\
      stdout w2' = stdout later_world ++ lines).
Proof.
  apply (entry_points_deterministic boot_world later_world 4 9);
    [reflexivity | fits_now | fuel_now | fuel_now].
Defined.

(** C9.  [verify_kernel_patches] writes nothing to the log: for every table
    the number of lines it emits is zero. *)
Theorem verify_logs_nothing (tbl : list kernel_patch) (w : world) :
  exists w',
    verify_kernel_patches (with_table tbl w) = Done KERN_SUCCESS w' /\
    stdout w' = stdout w /\
    lines_emitted (with_table tbl w) w' = 0%nat.
Proof.
  exists (with_table tbl w). split; [reflexivity |]. split; [reflexivity |].
  unfold lines_emitted. lia.
Qed.

(** * Further properties of the two entry points *)

(** ** Helper facts *)

Lemma append_newline_inj (d1 d2 : string) :
  (d1 ++ newline)%string = (d2 ++ newline)%string -> d1 = d2.
Proof.
  revert d2. induction d1 as [| a d1 IH]; intros [| b d2] H; simpl in H.
  - reflexivity.
  - unfold newline in H. injection H as _ H. destruct d2; discriminate.
  - unfold newline in H. injection H as _ H. destruct d1; discriminate.
  - injection H as -> H. f_equal. apply IH, H.
Qed.

Lemma applied_line_inj (d1 d2 : string) :
  applied_line d1 = applied_line d2 -> d1 = d2.
Proof.
  unfold applied_line. simpl. intros H.
  injection H as H. apply append_newline_inj, H.
Qed.

Lemma table_lines_descriptions (t1 t2 : list kernel_patch) :
  table_lines t1 = table_lines t2 <-> map description t1 = map description t2.
Proof.
  unfold table_lines. split.
  - revert t2. induction t1 as [| p t1 IH]; intros [| q t2] H;
      simpl in H; try discriminate; [reflexivity |].
    injection H as Hpq H. simpl.
    rewrite (append_newline_inj _ _ Hpq), (IH t2 H). reflexivity.
  - intros H. rewrite <- (map_map description applied_line t1).
    rewrite <- (map_map description applied_line t2). rewrite H. reflexivity.
Qed.

Lemma length_concat_repeat {A : Type} (l : list A) (k : nat) :
  List.length (List.concat (repeat l k)) = (k * List.length l)%nat.
Proof.
  induction k as [| k IH]; simpl; [reflexivity |].
  rewrite length_app, IH. reflexivity.
Qed.

Lemma count_char_stdout_text (c : ascii) (l1 l2 : list string) :
  count_char c (stdout_text (l1 ++ l2)) =
  (count_char c (stdout_text l1) + count_char c (stdout_text l2))%nat.
Proof.
  unfold stdout_text. induction l1 as [| s l1 IH]; simpl; [reflexivity |].
  rewrite !count_char_append, IH. lia.
Qed.

Lemma count_char_table_lines (tbl : list kernel_patch) :
  count_char line_feed (stdout_text (table_lines tbl)) =
  (List.length tbl + line_feeds tbl)%nat.
Proof.
  unfold stdout_text, table_lines, line_feeds.
  induction tbl as [| p tbl IH]; [reflexivity |].
  cbn [map fold_right List.length].
  rewrite count_char_append, applied_line_feeds, IH. lia.
Qed.

Lemma line_feeds_single (tbl : list kernel_patch) :
  Forall single_line tbl -> line_feeds tbl = 0%nat.
Proof.
  unfold line_feeds. induction 1 as [| p tbl Hp _ IH]; simpl; [reflexivity |].
  rewrite Hp, IH. reflexivity.
Qed.

Lemma run_calls_log (fuel : nat) (cs : list call) :
  forall w : world,
    table_fits (table w) ->
    (List.length (table w) < fuel)%nat ->
    exists w',
      run_calls fuel cs w = Done (repeat KERN_SUCCESS (List.length cs)) w' /\
      table w' = table w /\
      stdout w' =
        stdout w ++ List.concat (repeat (table_lines (table w)) (applies cs)).
Proof.
  induction cs as [| c cs IH]; intros w Hfits Hfuel.
  - exists w. simpl. rewrite app_nil_r. repeat split.
  - destruct c.
    + destruct (IH (after_apply w) Hfits Hfuel) as (w' & Hrun & Ht & Hlog).
      exists w'. cbn [run_calls run_call]. unfold bind at 1.
      rewrite (apply_kernel_patches_run w fuel Hfits Hfuel).
      unfold bind at 1. rewrite Hrun.
      split; [reflexivity |]. split; [exact Ht |].
      rewrite Hlog. unfold applies; simpl. rewrite <- app_assoc. reflexivity.
    + destruct (IH w Hfits Hfuel) as (w' & Hrun & Ht & Hlog).
      exists w'. cbn [run_calls run_call]. unfold bind at 1.
      rewrite verify_kernel_patches_run. unfold bind at 1. rewrite Hrun.
      repeat split; assumption.
Qed.

(** ** The loop's reads of the table *)

(** X1.  A run of [apply_kernel_patches] reads the descriptors at the
    indices 0, 1, ..., N-1, in that order and each exactly once; every index
    it reads lies inside the table, and it makes no other access. *)
Theorem apply_reads_each_descriptor_once (w : world) (fuel : nat) :
  table_fits (table w) ->
  (List.length (table w) < fuel)%nat ->
  exists (w' : world) (reads : list Z),
    apply_kernel_patches fuel w = Done KERN_SUCCESS w' /\
    accesses w' = accesses w ++ map StaticLoad reads /\
    reads = map Z.of_nat (seq 0 (List.length (table w))) /\
    Forall (fun i => 0 <= i < table_count (table w)) reads /\
    NoDup reads.
Proof.
  intros Hfits Hfuel.
  exists (after_apply w), (map Z.of_nat (seq 0 (List.length (table w)))).
  split; [apply apply_kernel_patches_run; assumption |].
  split; [unfold after_apply; simpl; rewrite map_map; reflexivity |].
  split; [reflexivity |]. split.
  - apply Forall_forall. intros i Hi.
    apply in_map_iff in Hi. destruct Hi as (k & <- & Hk).
    apply in_seq in Hk. rewrite table_count_length. lia.
  - apply Injective_map_NoDup; [| apply seq_NoDup].
    intros a b Hab. apply Nat2Z.inj, Hab.
Qed.

Lemma apply_reads_each_descriptor_once_witness :
  exists (w' : world) (reads : list Z),
    apply_kernel_patches 9 later_world = Done KERN_SUCCESS w' /\
    accesses w' = [TargetLoad 7] ++ map StaticLoad reads /\
    reads = [0; 1; 2] /\
    Forall (fun i => 0 <= i < table_count patches) reads /\
    NoDup reads.
Proof.
  apply (apply_reads_each_descriptor_once later_world 9);
    [fits_now | fuel_now].
Defined.

(** ** What the log depends on *)

(** X2.  The lines a run of [apply_kernel_patches] writes are fixed by the
    descriptions alone: two tables make it write the same lines exactly
    when they carry the same descriptions in the same order, whatever their
    [offset], [original] and [patched] words are. *)
Theorem log_tells_descriptions_only (w1 w2 : world) (fuel1 fuel2 : nat) :
  table_fits (table w1) ->
  table_fits (table w2) ->
  (List.length (table w1) < fuel1)%nat ->
  (List.length (table w2) < fuel2)%nat ->
  exists (w1' w2' : world) (lines1 lines2 : list string),
    apply_kernel_patches fuel1 w1 = Done KERN_SUCCESS w1' /\
    apply_kernel_patches fuel2 w2 = Done KERN_SUCCESS w2' /\
    stdout w1' = stdout w1 ++ lines1 /\
    stdout w2' = stdout w2 ++ lines2 /\
    (lines1 = lines2 <->
     map description (table w1) = map description (table w2)).
Proof.
  intros Hfits1 Hfits2 Hfuel1 Hfuel2.
  exists (after_apply w1), (after_apply w2),
    (table_lines (table w1)), (table_lines (table w2)).
  split; [apply apply_kernel_patches_run; assumption |].
  split; [apply apply_kernel_patches_run; assumption |].
  split; [reflexivity |]. split; [reflexivity |].
  apply table_lines_descriptions.
Qed.

Lemma log_tells_descriptions_only_witness :
  exists (w1' w2' : world) (lines1 lines2 : list string),
    apply_kernel_patches 4 boot_world = Done KERN_SUCCESS w1' /\
    apply_kernel_patches 5 relocated_world = Done KERN_SUCCESS w2' /\
    stdout w1' = stdout boot_world ++ lines1 /\
    stdout w2' = stdout relocated_world ++ lines2 /\
    (lines1 = lines2 <->
     map description (table boot_world) =
     map description (table relocated_world)).
Proof.
  apply (log_tells_descriptions_only boot_world relocated_world 4 5);
    [fits_now | fits_now | fuel_now | fuel_now].
Defined.

(** ** Sequences of calls *)

(** X3.  In any sequence of calls every call returns [KERN_SUCCESS], and
    the log grows by the table's lines once per call of
    [apply_kernel_patches]: k such calls among the sequence add k times N
    records, calls of [verify_kernel_patches] add none, and repeating
    [apply_kernel_patches] repeats its output. *)
Theorem calls_log_once_per_apply (cs : list call) (w : world) (fuel : nat) :
  table_fits (table w) ->
  (List.length (table w) < fuel)%nat ->
  exists w',
    run_calls fuel cs w = Done (repeat KERN_SUCCESS (List.length cs)) w' /\
    stdout w' =
      stdout w ++ List.concat (repeat (table_lines (table w)) (applies cs)) /\
    lines_emitted w w' = (applies cs * List.length (table w))%nat.
Proof.
  intros Hfits Hfuel.
  destruct (run_calls_log fuel cs w Hfits Hfuel) as (w' & Hrun & _ & Hlog).
  exists w'. split; [exact Hrun |]. split; [exact Hlog |].
  unfold lines_emitted. rewrite Hlog, length_app, length_concat_repeat.
  unfold table_lines. rewrite length_map. lia.
Qed.

Lemma calls_log_once_per_apply_witness :
  exists w',
    run_calls 4 [CallApply; CallVerify; CallApply] boot_world =
      Done [KERN_SUCCESS; KERN_SUCCESS; KERN_SUCCESS] w' /\
    stdout w' = [] ++ (table_lines patches ++ table_lines patches ++ []) /\
    lines_emitted boot_world w' = 6%nat.
Proof.
  apply (calls_log_once_per_apply [CallApply; CallVerify; CallApply]
                                  boot_world 4);
    [fits_now | fuel_now].
Defined.

(** X4.  Calls of [verify_kernel_patches] can be struck from any sequence of
    calls: the sequence without them leaves the same world behind, or
    breaks off the same way, for every table and every budget. *)
Theorem verify_calls_can_be_dropped (fuel : nat) (cs : list call) (w : world) :
  final (run_calls fuel cs w) = final (run_calls fuel (filter is_apply cs) w).
Proof.
  revert w. induction cs as [| c cs IH]; intros w; [reflexivity |].
  destruct c; cbn [filter is_apply run_calls run_call].
  - unfold bind at 1 3.
    destruct (apply_kernel_patches fuel w) as [r w1 | |]; try reflexivity.
    specialize (IH w1). unfold bind at 1 2.
    destruct (run_calls fuel cs w1) as [rs w2 | |];
      destruct (run_calls fuel (filter is_apply cs) w1) as [rs' w2' | |];
      simpl in IH |- *; congruence.
  - unfold bind at 1. rewrite verify_kernel_patches_run.
    rewrite <- IH. unfold bind.
    destruct (run_calls fuel cs w) as [rs w2 | |]; reflexivity.
Qed.

(** ** The log as text *)

(** X5.  Read as a stream of characters, the output of one run of
    [apply_kernel_patches] holds one line feed per descriptor plus the line
    feeds the descriptions carry themselves; when no description carries
    one, the run writes exactly N lines of text. *)
Theorem apply_text_line_feeds (w : world) (fuel : nat) :
  table_fits (table w) ->
  (List.length (table w) < fuel)%nat ->
  exists w',
    apply_kernel_patches fuel w = Done KERN_SUCCESS w' /\
    count_char line_feed (stdout_text (stdout w')) =
      (count_char line_feed (stdout_text (stdout w)) +
       List.length (table w) + line_feeds (table w))%nat /\
    (Forall single_line (table w) ->
     count_char line_feed (stdout_text (stdout w')) =
       (count_char line_feed (stdout_text (stdout w)) +
        List.length (table w))%nat).
Proof.
  intros Hfits Hfuel. exists (after_apply w).
  split; [apply apply_kernel_patches_run; assumption |].
  assert (Hcount :
    count_char line_feed (stdout_text (stdout (after_apply w))) =
      (count_char line_feed (stdout_text (stdout w)) +
       List.length (table w) + line_feeds (table w))%nat).
  { unfold after_apply; simpl.
    fold (table_lines (table w)).
    rewrite count_char_stdout_text, count_char_table_lines. lia. }
  split; [exact Hcount |].
  intros Hsingle. rewrite Hcount, (line_feeds_single _ Hsingle). lia.
Qed.

Lemma apply_text_line_feeds_witness :
  exists w',
    apply_kernel_patches 9 later_world = Done KERN_SUCCESS w' /\
    count_char line_feed (stdout_text (stdout w')) =
      (count_char line_feed (stdout_text (stdout later_world)) +
       List.length (table later_world) + line_feeds (table later_world))%nat /\
    (Forall single_line (table later_world) ->
     count_char line_feed (stdout_text (stdout w')) =
       (count_char line_feed (stdout_text (stdout later_world)) +
        List.length (table later_world))%nat).
Proof.
  apply (apply_text_line_feeds later_world 9); [fits_now | fuel_now].
Defined.

(** ** The loop counter *)

(** X6.  For a table that is a C array, [sizeof(patches) /
    sizeof(patches[0])] is the number of descriptors and is at most
    [INT_MAX]; at every index the loop visits, converting the [int] counter
    to [size_t] for the comparison leaves its value as it is, and [i++]
    adds one without wrapping and stays within the bound. *)
Theorem loop_counter_never_wraps (tbl : list kernel_patch) (i : Z) :
  table_fits tbl ->
  0 <= i < table_count tbl ->
  table_count tbl = Z.of_nat (List.length tbl) /\
  table_count tbl <= Int32.INT_MAX /\
  Int32.to_size_t i = i /\
  Int32.incr i = i + 1 /\
  Int32.to_size_t (Int32.incr i) <= table_count tbl.
Proof.
  intros Hfits Hi. pose proof (table_fits_int tbl Hfits) as Hmax.
  rewrite table_count_length in *.
  split; [reflexivity |]. split; [exact Hmax |].
  split; [apply to_size_t_small; lia |].
  rewrite incr_small by lia.
  split; [reflexivity |].
  rewrite to_size_t_small; lia.
Qed.

Lemma loop_counter_never_wraps_witness :
  table_count patches = 3 /\
  table_count patches <= Int32.INT_MAX /\
  Int32.to_size_t 2 = 2 /\
  Int32.incr 2 = 3 /\
  Int32.to_size_t (Int32.incr 2) <= table_count patches.
Proof.
  apply (loop_counter_never_wraps patches 2); [fits_now | vm_compute].
  split; [discriminate | reflexivity].
Defined.
